(** * GCMS content service: [create]

    A shallow embedding of
    [src/core/content_service/src/crud/create.ts] and the properties of
    its record lifecycle: type validation, owner validation, the update of
    the owner's content list, the insert into the content collection and
    the way failures reach the caller.

    The function builds [new Promise(async (resolve, reject) => ...)].
    Three facts of JavaScript shape the model:
    - a promise settles once: the first [resolve] or [reject] wins and the
      later ones do nothing;
    - the executor is an [async] function, so an exception thrown in it
      (or a rejected [await]) ends the executor without settling the
      promise: the promise stays pending and the exception is unhandled;
    - a [return] inside a callback leaves the callback only.

    The collaborators that are imported from outside the file (the BSON
    [ObjectId], [user.get], [user.update] and the collection's
    [insertOne]) are fields of a [World]. The general theorems hold for
    every world; the evaluations at the end of the file run [create] in
    the concrete worlds of [world_of]. *)

From Stdlib Require Import String Ascii List ZArith Bool.
Import ListNotations.
Open Scope string_scope.

Set Implicit Arguments.

(** ** Data *)

(** An identifier as a caller supplies it. *)
Definition RawId := string.

(** A BSON [ObjectId], named by its hexadecimal form. *)
Record ObjectId := { hex : string }.

(** [locals.KEYS.*]: the keys this file uses, and any other key a
    collaborator may put in an error. *)
Inductive LocalKey :=
| INVALID_TYPE
| INVALID_ID
| DB_ERROR
| OTHER_KEY (name : string).

(** [ErrorInterface], as the object literals of the file build it: a
    property left out of a literal is [None]. *)
Record ErrorInterface := {
  code : option Z;
  local_key : option LocalKey;
  where_ : option string;
  message : option string
}.

(** [AddonInterface]: the three properties [create] reads. *)
Record AddonInterface := {
  id : RawId;
  name : string;
  types : list string
}.

(** An entry of [history]. *)
Record HistoryEntry (any : Type) := {
  h_content : any;
  h_owner : ObjectId;
  h_date : Z;
  h_reason : string
}.

(** [ContentInterface]: the stored record; [content] is [any]. *)
Record ContentInterface (any : Type) := {
  _id : ObjectId;
  addon_id : ObjectId;
  type : string;
  owner : option ObjectId;
  history : list (HistoryEntry any);
  content : any
}.

(** The third argument of [create]: [{ content:any, owner?:ObjectId }]. *)
Record ContentArg (any : Type) := {
  arg_content : any;
  arg_owner : option RawId
}.

(** A value a collaborator's promise is rejected with, other than [null]
    and [undefined]: [false] or an object, seen through the properties an
    error has ([code] and [message] are the ones [create] reads). *)
Inductive Failure :=
| FFalse
| FError (e : ErrorInterface).

(** What a collaborator's promise is rejected with: [null] or
    [undefined], on which the read of a property throws, or a value. *)
Inductive Rejection :=
| RNullish
| Reason (err : Failure).
Coercion Reason : Failure >-> Rejection.

(** A value the promise of [create] is settled with: [false], an error
    object, or the record. *)
Inductive Value (any : Type) :=
| VFalse
| VError (e : ErrorInterface)
| VContent (c : ContentInterface any).
Arguments VFalse {any}.
Arguments VError {any} e.

(** A rejection of a collaborator, passed on as it is. *)
Definition value_of {any} (err : Failure) : Value any :=
  match err with
  | FFalse => VFalse
  | FError e => VError e
  end.

(** A user document under the projection [{ content: 1 }]. *)
Record UserDoc := {
  user_id : ObjectId;
  user_content : option (list ObjectId)
}.

(** A value [user.get] resolves to, other than [null] and [undefined],
    as far as [create] looks at it: the value [false], or a value with
    the properties [message], [0] and [content] ([None] is [undefined]). *)
Inductive UserData :=
| UDFalse
| UDValue (ud_message : option string) (ud_0 : option UserDoc)
          (ud_content : option (list ObjectId)).

(** What [user.get] resolves to ([user_data] is [any]): [null] or
    [undefined], on which the read of [user_data.message] throws, or a
    value. *)
Inductive Resolution :=
| Nullish
| Data (user_data : UserData).
Coercion Data : UserData >-> Resolution.

(** A JavaScript array of user documents: index [0] is its first element,
    and an array has neither a [message] nor a [content] property. *)
Definition user_array (docs : list UserDoc) : UserData :=
  UDValue None (hd_error docs) None.

(** The result of a promise that is awaited. *)
Inductive Awaited (A R : Type) :=
| Fulfilled (a : A)
| RejectedWith (r : R).
Arguments Fulfilled {A R} & a.
Arguments RejectedWith {A R} & r.

(** An exception. *)
Inductive Exn :=
| BSONError (raw : RawId)              (* [new ObjectId(raw)] on a malformed id *)
| AwaitRejected (r : Rejection)        (* an awaited promise was rejected *)
| JsError (msg : option string)        (* [throw Error(msg)] *)
| TypeError (read : string).           (* a property read on [null] or [undefined] *)

(** The collaborators.
    - [ObjectId_parse raw] is [new ObjectId(raw)]: [None] when the
      constructor throws. [ObjectId.isValid] is defined from it below, as
      the BSON library does (it tries the constructor).
    - [ObjectId_fresh] is the value of [new ObjectId()] in this call.
    - [user_get], [user_update]: the promises of the user service.
    - [insertOne doc]: the [err] the collection hands to the callback
      ([None] when there is none); an error carries its [message].
    - [toLowerCase] is [String.prototype.toLowerCase], the built-in of the
      language: it lowers every cased letter of Unicode, and nothing is
      assumed of it. *)
Record World (any : Type) := {
  toLowerCase : string -> string;
  ObjectId_parse : RawId -> option ObjectId;
  ObjectId_fresh : ObjectId;
  user_get : ObjectId -> Awaited Resolution Rejection;
  user_update : ObjectId -> list ObjectId -> option bool -> Awaited unit Rejection;
  insertOne : ContentInterface any -> option (option string)
}.

(** A call to a store. *)
Inductive Event (any : Type) :=
| EvUserGet (o : ObjectId)
| EvUserUpdate (o : ObjectId) (new_content : list ObjectId) (returnError : option bool)
| EvInsertOne (doc : ContentInterface any).
Arguments EvUserGet {any} o.
Arguments EvUserUpdate {any} o new_content returnError.

(** The state of the promise. *)
Inductive Settlement (any : Type) :=
| Pending
| Resolved (v : Value any)
| Rejected (v : Value any).
Arguments Pending {any}.

(** ** The execution monad *)

(** The state an executor runs in: the promise and the calls made so far. *)
Record Exec (any : Type) := {
  promise : Settlement any;
  calls : list (Event any)
}.

(** How a piece of code ends: normally, by a [return] of the enclosing
    function, or by an exception. *)
Inductive Completion (any A : Type) :=
| Normal (a : A)
| Returned
| Thrown (e : Exn).
Arguments Normal {any A} a.
Arguments Returned {any A}.
Arguments Thrown {any A} e.

Definition M (any A : Type) := Exec any -> Completion any A * Exec any.

Definition ret {any A} (a : A) : M any A := fun st => (Normal a, st).

Definition bind {any A B} (m : M any A) (k : A -> M any B) : M any B :=
  fun st =>
    match m st with
    | (Normal a, st') => k a st'
    | (Returned, st') => (Returned, st')
    | (Thrown e, st') => (Thrown e, st')
    end.

Declare Scope js_scope.
Delimit Scope js_scope with js.
Notation "x <- m ;; k" := (bind m (fun x => k))
  (at level 61, m at next level, right associativity) : js_scope.
Notation "m ;; k" := (bind m (fun _ => k))
  (at level 61, right associativity) : js_scope.
Open Scope js_scope.

(** [return;] *)
Definition return_ {any A} : M any A := fun st => (Returned, st).

(** [throw e] *)
Definition throw {any A} (e : Exn) : M any A := fun st => (Thrown e, st).

(** The first settlement wins. *)
Definition settle {any} (s : Settlement any) : M any unit :=
  fun st =>
    match promise st with
    | Pending => (Normal tt, {| promise := s; calls := calls st |})
    | _ => (Normal tt, st)
    end.

Definition resolve {any} (v : Value any) : M any unit := settle (Resolved v).
Definition reject {any} (v : Value any) : M any unit := settle (Rejected v).

(** A call to a store is recorded. *)
Definition call {any} (ev : Event any) : M any unit :=
  fun st => (Normal tt, {| promise := promise st; calls := calls st ++ [ev] |}).

(** [await p]: the value, or the rejection thrown. *)
Definition await {any A} (p : Awaited A Rejection) : M any A :=
  match p with
  | Fulfilled a => ret a
  | RejectedWith r => throw (AwaitRejected r)
  end.

(** A callback is invoked: its [return] ends the callback, not the code
    around it. *)
Definition invoke {any} (body : M any unit) : M any unit :=
  fun st =>
    match body st with
    | (Returned, st') => (Normal tt, st')
    | r => r
    end.

(** [p.catch(handler)]: a fulfilled promise goes through; a rejected one
    becomes what the handler does with the rejection. *)
Definition catch {any} (p : Awaited unit Rejection)
    (handler : Rejection -> M any unit) : M any unit :=
  match p with
  | Fulfilled a => ret a
  | RejectedWith err => invoke (handler err)
  end.

(** [if (c) { body }] *)
Definition when {any} (c : bool) (body : M any unit) : M any unit :=
  if c then body else ret tt.

(** ** JavaScript primitives *)

(** Lowercasing of the ASCII letters, for the concrete worlds below: on a
    string of ASCII characters it is what [String.prototype.toLowerCase]
    gives. *)
Definition lower_ascii (c : ascii) : ascii :=
  let n := nat_of_ascii c in
  if ((65 <=? n) && (n <=? 90))%nat then ascii_of_nat (n + 32) else c.

Fixpoint ascii_toLowerCase (s : string) : string :=
  match s with
  | EmptyString => EmptyString
  | String c rest => String (lower_ascii c) (ascii_toLowerCase rest)
  end.

(** [Array.prototype.includes] on an array of strings. *)
Definition includes (xs : list string) (x : string) : bool :=
  existsb (String.eqb x) xs.

(** [returnError === true] *)
Definition is_true (returnError : option bool) : bool :=
  match returnError with
  | Some true => true
  | _ => false
  end.

(** [ObjectId.isValid(raw)] *)
Definition isValid {any} (w : World any) (raw : RawId) : bool :=
  match ObjectId_parse w raw with
  | Some _ => true
  | None => false
  end.

(** [new ObjectId(raw)] *)
Definition new_ObjectId {any} (w : World any) (raw : RawId) : M any ObjectId :=
  match ObjectId_parse w raw with
  | Some o => ret o
  | None => throw (BSONError raw)
  end.

(** [err.code]: [undefined] on [false]. *)
Definition code_of (err : Failure) : option Z :=
  match err with
  | FError e => code e
  | FFalse => None
  end.

(** [err.message] *)
Definition message_of (err : Failure) : option string :=
  match err with
  | FError e => message e
  | FFalse => None
  end.

(** [err.code === 0] *)
Definition code_is_0 (err : Failure) : bool :=
  match code_of err with
  | Some c => (c =? 0)%Z
  | None => false
  end.

(** [user_data === false || user_data.message !== undefined
     || user_data[0] === undefined] *)
Definition user_missing (user_data : UserData) : bool :=
  match user_data with
  | UDFalse => true
  | UDValue (Some _) _ _ => true
  | UDValue None None _ => true
  | UDValue None (Some _) _ => false
  end.

(** [user_data.content || []] *)
Definition content_or_empty (user_data : UserData) : list ObjectId :=
  match user_data with
  | UDValue _ _ (Some l) => l
  | _ => []
  end.

(** ** The error objects of [create.ts] *)

Definition invalid_type_error (type_ : string) (addon : AddonInterface) : ErrorInterface :=
  {| code := Some 1%Z;
     local_key := Some INVALID_TYPE;
     where_ := Some "create.ts";
     message := Some ("The type " ++ type_ ++ " is not defined in the addon " ++ name addon) |}.

Definition invalid_owner_error (raw : RawId) : ErrorInterface :=
  {| code := Some 1%Z;
     local_key := Some INVALID_ID;
     where_ := Some "create.ts";
     message := Some ("The owner " ++ raw ++ " is not a valid BSON ID") |}.

Definition owner_not_found_error (raw : RawId) : ErrorInterface :=
  {| code := Some 1%Z;
     local_key := Some INVALID_ID;
     where_ := Some "create.ts";
     message := Some ("The owner " ++ raw ++ " is not found") |}.

Definition db_error (err_message : option string) : ErrorInterface :=
  {| code := None;
     local_key := Some DB_ERROR;
     where_ := Some "update.ts";
     message := err_message |}.

(** What a caller and the stores see of one call: how the promise ends,
    the exception that left the executor (if one did), and the calls to
    the stores, in order. *)
Record Run (any : Type) := {
  outcome : Settlement any;
  uncaught : option Exn;
  events : list (Event any)
}.

(** ** [create] *)

Section Create.
Variable any : Type.
Variable w : World any.
Variable addon : AddonInterface.
Variable type_ : string.
Variable content_ : ContentArg any.
Variable returnError : option bool.

(** The callback given to [insertOne]. *)
Definition insertOne_callback (pushOBJ : ContentInterface any)
    (err : option (option string)) : M any unit :=
  match err with
  | Some err_message =>
      when (is_true returnError)
        (reject (VError (db_error err_message)) ;; return_) ;;
      reject VFalse ;; return_
  | None =>
      resolve (VContent pushOBJ) ;; return_
  end.

(** The handler given to [user.update(...).catch]. *)
Definition update_catch (err : Rejection) : M any unit :=
  match err with
  | RNullish => throw (TypeError "err.code")
  | Reason err =>
      if code_is_0 err then throw (JsError (message_of err))
      else (resolve (value_of err) ;; return_)
  end.

(** The owner block of lines 53-67: the record with its owner set. *)
Definition set_owner (pushOBJ : ContentInterface any) : M any (ContentInterface any) :=
  match arg_owner content_ with
  | Some raw =>
      if negb (isValid w raw) then
        if is_true returnError
        then reject (VError (invalid_owner_error raw)) ;; return_
        else reject VFalse ;; return_
      else
        o <- new_ObjectId w raw ;;
        ret {| _id := _id pushOBJ; addon_id := addon_id pushOBJ;
               type := type pushOBJ; owner := Some o;
               history := history pushOBJ; content := content pushOBJ |}
  | None => ret pushOBJ
  end.

(** The owner block of lines 70-91: the user is read and updated. *)
Definition link_owner (pushOBJ : ContentInterface any) : M any unit :=
  match owner pushOBJ with
  | Some o =>
      call (EvUserGet o) ;;
      user_data <- await (user_get w o) ;;
      match user_data with
      | Nullish => throw (TypeError "user_data.message")
      | Data user_data =>
          when (user_missing user_data)
            (if is_true returnError
             then reject (VError (owner_not_found_error
                                    (match arg_owner content_ with
                                     | Some raw => raw
                                     | None => "undefined"
                                     end))) ;; return_
             else reject VFalse ;; return_) ;;
          let new_content := (content_or_empty user_data ++ [_id pushOBJ])%list in
          call (EvUserUpdate o new_content returnError) ;;
          catch (user_update w o new_content returnError) update_catch
      end
  | None => ret tt
  end.

(** The body of the executor. *)
Definition executor : M any unit :=
  when (negb (includes (types addon) type_))
    (when (is_true returnError)
       (reject (VError (invalid_type_error type_ addon)) ;; return_) ;;
     reject VFalse ;; return_) ;;
  let fresh := ObjectId_fresh w in
  addon_oid <- new_ObjectId w (id addon) ;;
  let pushOBJ :=
    {| _id := fresh;
       addon_id := addon_oid;
       type := toLowerCase w type_;
       owner := None;
       history := [];
       content := arg_content content_ |} in
  pushOBJ <- set_owner pushOBJ ;;
  link_owner pushOBJ ;;
  call (EvInsertOne pushOBJ) ;;
  invoke (insertOne_callback pushOBJ (insertOne w pushOBJ)).

(** The exported function. *)
Definition create : Run any :=
  let '(c, st) := executor {| promise := Pending; calls := [] |} in
  {| outcome := promise st;
     uncaught := match c with Thrown e => Some e | _ => None end;
     events := calls st |}.

End Create.


(** ** Notions the properties are stated with *)

(** The value a failure is reported with: the error object when
    [returnError === true], [false] otherwise. *)
Definition failure {any} (returnError : option bool) (e : ErrorInterface) : Value any :=
  if is_true returnError then VError e else VFalse.

(** The call succeeded: the promise is resolved with the record. *)
Definition succeeds {any} (r : Run any) : Prop :=
  exists rec, outcome r = Resolved (VContent rec).

(** The error kind a rejected call carries. *)
Definition kind_of {any} (r : Run any) : option LocalKey :=
  match outcome r with
  | Rejected (VError e) => local_key e
  | _ => None
  end.

(** The four properties [code], [local_key], [where] and [message] are
    all there. *)
Definition has_all_fields (e : ErrorInterface) : bool :=
  match code e, local_key e, where_ e, message e with
  | Some _, Some _, Some _, Some _ => true
  | _, _, _, _ => false
  end.

(** A call that writes to a store. *)
Definition is_write {any} (ev : Event any) : bool :=
  match ev with
  | EvUserGet _ => false
  | EvUserUpdate _ _ _ => true
  | EvInsertOne _ => true
  end.

(** A call to the user store. *)
Definition is_user_call {any} (ev : Event any) : bool :=
  match ev with
  | EvUserGet _ => true
  | EvUserUpdate _ _ _ => true
  | EvInsertOne _ => false
  end.

(** The records handed to [insertOne]. *)
Fixpoint inserted {any} (evs : list (Event any)) : list (ContentInterface any) :=
  match evs with
  | [] => []
  | EvInsertOne doc :: rest => doc :: inserted rest
  | _ :: rest => inserted rest
  end.

(** The content lists the user [o] was updated with. *)
Fixpoint updates_of {any} (o : ObjectId) (evs : list (Event any)) : list (list ObjectId) :=
  match evs with
  | [] => []
  | EvUserUpdate o' l _ :: rest =>
      if String.eqb (hex o') (hex o) then l :: updates_of o rest else updates_of o rest
  | _ :: rest => updates_of o rest
  end.

(** The record [create] builds from its arguments. *)
Definition built {any} (w : World any) (addon_oid : ObjectId) (type_ : string)
    (content_ : ContentArg any) (o : option ObjectId) : ContentInterface any :=
  {| _id := ObjectId_fresh w;
     addon_id := addon_oid;
     type := toLowerCase w type_;
     owner := o;
     history := [];
     content := arg_content content_ |}.

(** How the callback of [insertOne] settles a pending promise. *)
Definition insert_outcome {any} (w : World any) (returnError : option bool)
    (doc : ContentInterface any) : Settlement any :=
  match insertOne w doc with
  | None => Resolved (VContent doc)
  | Some err_message => Rejected (failure returnError (db_error err_message))
  end.

(** ** Concrete worlds *)

(** The strings the BSON constructor takes: 24 hexadecimal digits. *)
Definition is_hex_digit (c : ascii) : bool :=
  let n := nat_of_ascii c in
  ((48 <=? n) && (n <=? 57) || (65 <=? n) && (n <=? 70) || (97 <=? n) && (n <=? 102))%nat.

Fixpoint all_hex (s : string) : bool :=
  match s with
  | EmptyString => true
  | String c rest => is_hex_digit c && all_hex rest
  end.

Definition hex24 (raw : RawId) : option ObjectId :=
  if ((String.length raw =? 24)%nat && all_hex raw)%bool
  then Some {| hex := ascii_toLowerCase raw |}
  else None.

(** A world with the given users, in which [user.update] and [insertOne]
    answer as told. Its [toLowerCase] lowers the ASCII letters: the
    evaluations in these worlds lowercase ASCII strings only. *)
Definition world_of (users : list UserDoc) (update_result : Awaited unit Rejection)
    (insert_result : option (option string)) : World string :=
  {| toLowerCase := ascii_toLowerCase;
     ObjectId_parse := hex24;
     ObjectId_fresh := {| hex := "64b7f0c2a1d3e4f5a6b7c8d9" |};
     user_get := fun o =>
       Fulfilled (user_array
         (filter (fun d => String.eqb (hex (user_id d)) (hex o)) users));
     user_update := fun _ _ _ => update_result;
     insertOne := fun _ => insert_result |}.

Definition blog : AddonInterface :=
  {| id := "507f1f77bcf86cd799439011"; name := "blog"; types := ["post"] |}.

Definition alice_id : ObjectId := {| hex := "507f191e810c19729de860ea" |}.
Definition older_record : ObjectId := {| hex := "5f43a1b2c3d4e5f60718293a" |}.

Definition alice : UserDoc :=
  {| user_id := alice_id; user_content := Some [older_record] |}.

Definition fresh_record : ObjectId := {| hex := "64b7f0c2a1d3e4f5a6b7c8d9" |}.

Definition ledger_error : ErrorInterface :=
  {| code := Some 1%Z;
     local_key := Some DB_ERROR;
     where_ := Some "user.update";
     message := Some "update failed" |}.

Definition fatal_error : ErrorInterface :=
  {| code := Some 0%Z;
     local_key := Some DB_ERROR;
     where_ := Some "user.update";
     message := Some "connection lost" |}.

(** ** The ways through [create]

    [Path w addon type_ content_ returnError r]: the arguments take one of
    the eleven ways through the function, and [r] is what is seen of it. *)

Inductive Path {any} (w : World any) (addon : AddonInterface) (type_ : string)
    (content_ : ContentArg any) (returnError : option bool) : Run any -> Prop :=
| InvalidType :
    includes (types addon) type_ = false ->
    Path w addon type_ content_ returnError
      {| outcome := Rejected (failure returnError (invalid_type_error type_ addon));
         uncaught := None;
         events := [] |}
| AddonIdThrows :
    includes (types addon) type_ = true ->
    ObjectId_parse w (id addon) = None ->
    Path w addon type_ content_ returnError
      {| outcome := Pending;
         uncaught := Some (BSONError (id addon));
         events := [] |}
| OwnerMalformed a raw :
    includes (types addon) type_ = true ->
    ObjectId_parse w (id addon) = Some a ->
    arg_owner content_ = Some raw ->
    ObjectId_parse w raw = None ->
    Path w addon type_ content_ returnError
      {| outcome := Rejected (failure returnError (invalid_owner_error raw));
         uncaught := None;
         events := [] |}
| NoOwner a :
    includes (types addon) type_ = true ->
    ObjectId_parse w (id addon) = Some a ->
    arg_owner content_ = None ->
    Path w addon type_ content_ returnError
      {| outcome := insert_outcome w returnError (built w a type_ content_ None);
         uncaught := None;
         events := [EvInsertOne (built w a type_ content_ None)] |}
| GetRejected a raw o r :
    includes (types addon) type_ = true ->
    ObjectId_parse w (id addon) = Some a ->
    arg_owner content_ = Some raw ->
    ObjectId_parse w raw = Some o ->
    user_get w o = RejectedWith r ->
    Path w addon type_ content_ returnError
      {| outcome := Pending;
         uncaught := Some (AwaitRejected r);
         events := [EvUserGet o] |}
| OwnerNotFound a raw o (user_data : UserData) :
    includes (types addon) type_ = true ->
    ObjectId_parse w (id addon) = Some a ->
    arg_owner content_ = Some raw ->
    ObjectId_parse w raw = Some o ->
    user_get w o = Fulfilled user_data ->
    user_missing user_data = true ->
    Path w addon type_ content_ returnError
      {| outcome := Rejected (failure returnError (owner_not_found_error raw));
         uncaught := None;
         events := [EvUserGet o] |}
| Linked a raw o (user_data : UserData) :
    includes (types addon) type_ = true ->
    ObjectId_parse w (id addon) = Some a ->
    arg_owner content_ = Some raw ->
    ObjectId_parse w raw = Some o ->
    user_get w o = Fulfilled user_data ->
    user_missing user_data = false ->
    user_update w o (content_or_empty user_data ++ [ObjectId_fresh w])%list returnError
      = Fulfilled tt ->
    Path w addon type_ content_ returnError
      {| outcome := insert_outcome w returnError (built w a type_ content_ (Some o));
         uncaught := None;
         events := [EvUserGet o;
                    EvUserUpdate o (content_or_empty user_data ++ [ObjectId_fresh w])%list
                      returnError;
                    EvInsertOne (built w a type_ content_ (Some o))] |}
| UpdateThrows a raw o (user_data : UserData) (err : Failure) :
    includes (types addon) type_ = true ->
    ObjectId_parse w (id addon) = Some a ->
    arg_owner content_ = Some raw ->
    ObjectId_parse w raw = Some o ->
    user_get w o = Fulfilled user_data ->
    user_missing user_data = false ->
    user_update w o (content_or_empty user_data ++ [ObjectId_fresh w])%list returnError
      = RejectedWith err ->
    code_is_0 err = true ->
    Path w addon type_ content_ returnError
      {| outcome := Pending;
         uncaught := Some (JsError (message_of err));
         events := [EvUserGet o;
                    EvUserUpdate o (content_or_empty user_data ++ [ObjectId_fresh w])%list
                      returnError] |}
| UpdateRejected a raw o (user_data : UserData) (err : Failure) :
    includes (types addon) type_ = true ->
    ObjectId_parse w (id addon) = Some a ->
    arg_owner content_ = Some raw ->
    ObjectId_parse w raw = Some o ->
    user_get w o = Fulfilled user_data ->
    user_missing user_data = false ->
    user_update w o (content_or_empty user_data ++ [ObjectId_fresh w])%list returnError
      = RejectedWith err ->
    code_is_0 err = false ->
    Path w addon type_ content_ returnError
      {| outcome := Resolved (value_of err);
         uncaught := None;
         events := [EvUserGet o;
                    EvUserUpdate o (content_or_empty user_data ++ [ObjectId_fresh w])%list
                      returnError;
                    EvInsertOne (built w a type_ content_ (Some o))] |}
| UserDataNullish a raw o :
    includes (types addon) type_ = true ->
    ObjectId_parse w (id addon) = Some a ->
    arg_owner content_ = Some raw ->
    ObjectId_parse w raw = Some o ->
    user_get w o = Fulfilled Nullish ->
    Path w addon type_ content_ returnError
      {| outcome := Pending;
         uncaught := Some (TypeError "user_data.message");
         events := [EvUserGet o] |}
| UpdateErrNullish a raw o (user_data : UserData) :
    includes (types addon) type_ = true ->
    ObjectId_parse w (id addon) = Some a ->
    arg_owner content_ = Some raw ->
    ObjectId_parse w raw = Some o ->
    user_get w o = Fulfilled user_data ->
    user_missing user_data = false ->
    user_update w o (content_or_empty user_data ++ [ObjectId_fresh w])%list returnError
      = RejectedWith RNullish ->
    Path w addon type_ content_ returnError
      {| outcome := Pending;
         uncaught := Some (TypeError "err.code");
         events := [EvUserGet o;
                    EvUserUpdate o (content_or_empty user_data ++ [ObjectId_fresh w])%list
                      returnError] |}.

(** A validation check of [create] fails: the type check of line 32, the
    owner check of line 55, or the user check of line 75, each reached
    as the code reaches it. *)
Inductive ValidationFailure {any} (w : World any) (addon : AddonInterface)
    (type_ : string) (content_ : ContentArg any) : ErrorInterface -> Prop :=
| TypeCheckFails :
    ~ In type_ (types addon) ->
    ValidationFailure w addon type_ content_ (invalid_type_error type_ addon)
| OwnerCheckFails a raw :
    In type_ (types addon) ->
    ObjectId_parse w (id addon) = Some a ->
    arg_owner content_ = Some raw ->
    isValid w raw = false ->
    ValidationFailure w addon type_ content_ (invalid_owner_error raw)
| UserCheckFails a raw o (user_data : UserData) :
    In type_ (types addon) ->
    ObjectId_parse w (id addon) = Some a ->
    arg_owner content_ = Some raw ->
    ObjectId_parse w raw = Some o ->
    user_get w o = Fulfilled user_data ->
    user_missing user_data = true ->
    ValidationFailure w addon type_ content_ (owner_not_found_error raw).

(** * The GraphQL registry: [src/api/graphql.ts]

    The module keeps two variables, [schemas] (an array of schema texts)
    and [root_resolver] (one object, created once and only ever mutated),
    and mounts a middleware on [app]. [path.join], [fs.readFileSync],
    [makeExecutableSchema] and the middleware stack of [app] are outside
    the file: the first three are fields of an [ApiEnv], the stack is part
    of the state. *)

(** A JavaScript object with string keys: its own properties, in
    insertion order. *)
Definition Obj (V : Type) := list (string * V).

(** [o[k]]: [None] is [undefined]. *)
Fixpoint obj_get {V} (o : Obj V) (k : string) : option V :=
  match o with
  | [] => None
  | (k', v) :: rest => if String.eqb k k' then Some v else obj_get rest k
  end.

(** [o[k] = v]: an existing property keeps its place, a new one goes last. *)
Fixpoint obj_set {V} (o : Obj V) (k : string) (v : V) : Obj V :=
  match o with
  | [] => [(k, v)]
  | (k', v') :: rest =>
      if String.eqb k k' then (k', v) :: rest else (k', v') :: obj_set rest k v
  end.

(** [Object.keys(o)] *)
Definition obj_keys {V} (o : Obj V) : list string := map fst o.

(** [Object.assign(target, source)]: every own property of [source] is
    set on [target], in order. *)
Definition Object_assign {V} (target source : Obj V) : Obj V :=
  fold_left (fun t kv => obj_set t (fst kv) (snd kv)) source target.

(** The address of an object. *)
Definition Ref := nat.

(** [let root_resolver:any = {}]: the variable is bound once, to one
    object. *)
Definition root_resolver : Ref := 0%nat.

(** The options [graphqlHTTP] is given; [rootValue] is the object passed,
    not a copy of it. *)
Record Middleware (S : Type) := {
  schema : S;
  rootValue : Ref;
  graphiql : bool
}.

(** An [app.use(route, handler)]. *)
Record Route (S : Type) := {
  route : string;
  handler : Middleware S
}.

(** The state of the module and of [app]: the array [schemas], the
    objects by address, the middleware stack. *)
Record ApiState (S V : Type) := {
  schemas : list string;
  heap : Ref -> Obj V;
  app_stack : list (Route S)
}.

(** The state when the module is loaded: [schemas = []],
    [root_resolver = {}], nothing mounted. *)
Definition api_init (S V : Type) : ApiState S V :=
  {| schemas := []; heap := fun _ => []; app_stack := [] |}.

(** What is outside the file: [None] is a call that throws. *)
Record ApiEnv (S : Type) := {
  join : string -> string -> string;
  readFileSync : string -> option string;
  makeExecutableSchema : list string -> option S
}.

Inductive ApiExn :=
| FsError (file : string)
| SchemaError (typeDefs : list string).

(** [expandGQL(path, file_name, resolver)] *)
Definition expandGQL {S V} (env : ApiEnv S) (path file_name : string)
    (resolver : Obj V) (st : ApiState S V) : option ApiExn * ApiState S V :=
  match readFileSync env (join env path file_name) with
  | None => (Some (FsError (join env path file_name)), st)
  | Some text =>
      let st1 := {| schemas := schemas st ++ [text];
                    heap := heap st;
                    app_stack := app_stack st |} in
      (None,
       {| schemas := schemas st1;
          heap := fun r => if Nat.eqb r root_resolver
                           then Object_assign (heap st1 root_resolver) resolver
                           else heap st1 r;
          app_stack := app_stack st1 |})
  end.

(** [lockGraphSQL()] *)
Definition lockGraphSQL {S V} (env : ApiEnv S) (st : ApiState S V)
    : option ApiExn * ApiState S V :=
  match makeExecutableSchema env (schemas st) with
  | None => (Some (SchemaError (schemas st)), st)
  | Some built_schema =>
      (None,
       {| schemas := schemas st;
          heap := heap st;
          app_stack :=
            app_stack st ++
            [{| route := "/graphql";
                handler := {| schema := built_schema;
                              rootValue := root_resolver;
                              graphiql := true |} |}] |})
  end.


(** A call of [expandGQL], as an addon makes it. *)
Record Registration (V : Type) := {
  reg_path : string;
  reg_file : string;
  reg_resolver : Obj V
}.

(** The calls of [regs] made one after the other, each caller going on
    after an exception. *)
Fixpoint expand_all {S V} (env : ApiEnv S) (regs : list (Registration V))
    (st : ApiState S V) : ApiState S V :=
  match regs with
  | [] => st
  | r :: rest =>
      expand_all env rest
        (snd (expandGQL env (reg_path r) (reg_file r) (reg_resolver r) st))
  end.

(** The schema text a registration brings, when its file can be read. *)
Definition text_of {S V} (env : ApiEnv S) (r : Registration V) : list string :=
  match readFileSync env (join env (reg_path r) (reg_file r)) with
  | Some text => [text]
  | None => []
  end.

(** A file system with two schema files, a [join] with a slash, and a
    schema builder that keeps the texts and refuses an empty array. *)
Definition disk : ApiEnv (list string) :=
  {| join := fun p f => p ++ "/" ++ f;
     readFileSync := fun file =>
       if String.eqb file "addons/blog/schema.gql" then Some "type Query { posts: [Post] }"
       else if String.eqb file "addons/shop/schema.gql" then Some "type Query { items: [Item] }"
       else None;
     makeExecutableSchema := fun typeDefs =>
       match typeDefs with
       | [] => None
       | _ => Some typeDefs
       end |}.

(** ** The paths of [create] *)

Ltac run_create :=
  unfold create, executor, set_owner, link_owner, insertOne_callback,
    update_catch, catch, invoke, when, bind, ret, return_, throw,
    reject, resolve, settle, call, await, isValid, new_ObjectId,
    insert_outcome, failure, built;
  repeat match goal with
         | H : ?x = _ |- context [?x] => rewrite H
         end;
  cbn.

Section Paths.
Variable any : Type.
Variable w : World any.
Variable addon : AddonInterface.
Variable type_ : string.
Variable content_ : ContentArg any.
Variable returnError : option bool.

#[local] Abbreviation run := (create w addon type_ content_ returnError).

Lemma includes_In (xs : list string) (x : string) :
  includes xs x = true <-> In x xs.
Proof.
  unfold includes. rewrite existsb_exists. split.
  - intros [y [Hy Heq]]. apply String.eqb_eq in Heq. now subst.
  - intros H. exists x. split; [assumption | apply String.eqb_refl].
Qed.

Lemma includes_not_In (xs : list string) (x : string) :
  includes xs x = false <-> ~ In x xs.
Proof.
  rewrite <- includes_In. destruct (includes xs x); split; congruence.
Qed.

(** Line 32: the type is not in [addon.types]. *)
Lemma path_invalid_type :
  includes (types addon) type_ = false ->
  run = {| outcome := Rejected (failure returnError (invalid_type_error type_ addon));
           uncaught := None;
           events := [] |}.
Proof.
  intros H. run_create. destruct (is_true returnError); reflexivity.
Qed.

(** Line 46: [new ObjectId(addon.id)] throws. *)
Lemma path_addon_id_malformed :
  includes (types addon) type_ = true ->
  ObjectId_parse w (id addon) = None ->
  run = {| outcome := Pending;
           uncaught := Some (BSONError (id addon));
           events := [] |}.
Proof.
  intros H1 H2. run_create. reflexivity.
Qed.

(** Lines 55-64: the owner is not a valid id. *)
Lemma path_owner_malformed (a : ObjectId) (raw : RawId) :
  includes (types addon) type_ = true ->
  ObjectId_parse w (id addon) = Some a ->
  arg_owner content_ = Some raw ->
  ObjectId_parse w raw = None ->
  run = {| outcome := Rejected (failure returnError (invalid_owner_error raw));
           uncaught := None;
           events := [] |}.
Proof.
  intros H1 H2 H3 H4. run_create. destruct (is_true returnError); reflexivity.
Qed.

(** No owner: lines 53 and 70 are skipped, the record is inserted. *)
Lemma path_no_owner (a : ObjectId) :
  includes (types addon) type_ = true ->
  ObjectId_parse w (id addon) = Some a ->
  arg_owner content_ = None ->
  run = {| outcome := insert_outcome w returnError (built w a type_ content_ None);
           uncaught := None;
           events := [EvInsertOne (built w a type_ content_ None)] |}.
Proof.
  intros H1 H2 H3. run_create.
  destruct (insertOne w _); [destruct (is_true returnError)|]; reflexivity.
Qed.

(** Line 72: [user.get] rejects, the [await] throws. *)
Lemma path_get_rejected (a o : ObjectId) (raw : RawId) (r : Rejection) :
  includes (types addon) type_ = true ->
  ObjectId_parse w (id addon) = Some a ->
  arg_owner content_ = Some raw ->
  ObjectId_parse w raw = Some o ->
  user_get w o = RejectedWith r ->
  run = {| outcome := Pending;
           uncaught := Some (AwaitRejected r);
           events := [EvUserGet o] |}.
Proof.
  intros H1 H2 H3 H4 H5. run_create. rewrite H5. reflexivity.
Qed.

(** Lines 75-84: the user is not there. *)
Lemma path_owner_not_found (a o : ObjectId) (raw : RawId) (user_data : UserData) :
  includes (types addon) type_ = true ->
  ObjectId_parse w (id addon) = Some a ->
  arg_owner content_ = Some raw ->
  ObjectId_parse w raw = Some o ->
  user_get w o = Fulfilled user_data ->
  user_missing user_data = true ->
  run = {| outcome := Rejected (failure returnError (owner_not_found_error raw));
           uncaught := None;
           events := [EvUserGet o] |}.
Proof.
  intros H1 H2 H3 H4 H5 H6. run_create. rewrite H5. cbn. rewrite H6.
  destruct (is_true returnError); reflexivity.
Qed.

(** Lines 87-106: the user is updated, then the record is inserted. *)
Lemma path_linked (a o : ObjectId) (raw : RawId) (user_data : UserData) :
  includes (types addon) type_ = true ->
  ObjectId_parse w (id addon) = Some a ->
  arg_owner content_ = Some raw ->
  ObjectId_parse w raw = Some o ->
  user_get w o = Fulfilled user_data ->
  user_missing user_data = false ->
  user_update w o (content_or_empty user_data ++ [ObjectId_fresh w])%list returnError
    = Fulfilled tt ->
  run = {| outcome := insert_outcome w returnError (built w a type_ content_ (Some o));
           uncaught := None;
           events := [EvUserGet o;
                      EvUserUpdate o (content_or_empty user_data ++ [ObjectId_fresh w])%list
                        returnError;
                      EvInsertOne (built w a type_ content_ (Some o))] |}.
Proof.
  intros H1 H2 H3 H4 H5 H6 H7. run_create. rewrite H5. cbn. rewrite H6. cbn.
  rewrite H7. cbn.
  destruct (insertOne w _); [destruct (is_true returnError)|]; reflexivity.
Qed.

(** Lines 87-88: [user.update] rejects with [code] 0, the handler throws. *)
Lemma path_update_thrown (a o : ObjectId) (raw : RawId) (user_data : UserData)
    (err : Failure) :
  includes (types addon) type_ = true ->
  ObjectId_parse w (id addon) = Some a ->
  arg_owner content_ = Some raw ->
  ObjectId_parse w raw = Some o ->
  user_get w o = Fulfilled user_data ->
  user_missing user_data = false ->
  user_update w o (content_or_empty user_data ++ [ObjectId_fresh w])%list returnError
    = RejectedWith err ->
  code_is_0 err = true ->
  run = {| outcome := Pending;
           uncaught := Some (JsError (message_of err));
           events := [EvUserGet o;
                      EvUserUpdate o (content_or_empty user_data ++ [ObjectId_fresh w])%list
                        returnError] |}.
Proof.
  intros H1 H2 H3 H4 H5 H6 H7 H8. run_create. rewrite H5. cbn. rewrite H6. cbn.
  rewrite H7. cbn. rewrite H8. reflexivity.
Qed.

(** Lines 87-106: [user.update] rejects with another [code]; the handler
    resolves the promise with the error and returns, and the executor
    goes on to [insertOne], whose callback finds the promise settled. *)
Lemma path_update_rejected (a o : ObjectId) (raw : RawId) (user_data : UserData)
    (err : Failure) :
  includes (types addon) type_ = true ->
  ObjectId_parse w (id addon) = Some a ->
  arg_owner content_ = Some raw ->
  ObjectId_parse w raw = Some o ->
  user_get w o = Fulfilled user_data ->
  user_missing user_data = false ->
  user_update w o (content_or_empty user_data ++ [ObjectId_fresh w])%list returnError
    = RejectedWith err ->
  code_is_0 err = false ->
  run = {| outcome := Resolved (value_of err);
           uncaught := None;
           events := [EvUserGet o;
                      EvUserUpdate o (content_or_empty user_data ++ [ObjectId_fresh w])%list
                        returnError;
                      EvInsertOne (built w a type_ content_ (Some o))] |}.
Proof.
  intros H1 H2 H3 H4 H5 H6 H7 H8. run_create. rewrite H5. cbn. rewrite H6. cbn.
  rewrite H7. cbn. rewrite H8. cbn.
  destruct (insertOne w _); [destruct (is_true returnError)|]; reflexivity.
Qed.

(** Line 75: [user.get] resolves to [null] or [undefined], the read of
    [user_data.message] throws. *)
Lemma path_user_data_nullish (a o : ObjectId) (raw : RawId) :
  includes (types addon) type_ = true ->
  ObjectId_parse w (id addon) = Some a ->
  arg_owner content_ = Some raw ->
  ObjectId_parse w raw = Some o ->
  user_get w o = Fulfilled Nullish ->
  run = {| outcome := Pending;
           uncaught := Some (TypeError "user_data.message");
           events := [EvUserGet o] |}.
Proof.
  intros H1 H2 H3 H4 H5. run_create. rewrite H5. reflexivity.
Qed.

(** Line 88: [user.update] rejects with [null] or [undefined], the read
    of [err.code] throws in the handler. *)
Lemma path_update_err_nullish (a o : ObjectId) (raw : RawId) (user_data : UserData) :
  includes (types addon) type_ = true ->
  ObjectId_parse w (id addon) = Some a ->
  arg_owner content_ = Some raw ->
  ObjectId_parse w raw = Some o ->
  user_get w o = Fulfilled user_data ->
  user_missing user_data = false ->
  user_update w o (content_or_empty user_data ++ [ObjectId_fresh w])%list returnError
    = RejectedWith RNullish ->
  run = {| outcome := Pending;
           uncaught := Some (TypeError "err.code");
           events := [EvUserGet o;
                      EvUserUpdate o (content_or_empty user_data ++ [ObjectId_fresh w])%list
                        returnError] |}.
Proof.
  intros H1 H2 H3 H4 H5 H6 H7. run_create. rewrite H5. cbn. rewrite H6. cbn.
  rewrite H7. reflexivity.
Qed.

(** Every call takes one of the eleven ways. *)
Lemma create_path : Path w addon type_ content_ returnError run.
Proof.
  destruct (includes (types addon) type_) eqn:Hty.
  2: { rewrite path_invalid_type by assumption. now apply InvalidType. }
  destruct (ObjectId_parse w (id addon)) as [a|] eqn:Ha.
  2: { rewrite path_addon_id_malformed by assumption. now apply AddonIdThrows. }
  destruct (arg_owner content_) as [raw|] eqn:Hown.
  2: { erewrite path_no_owner by eassumption. now apply NoOwner. }
  destruct (ObjectId_parse w raw) as [o|] eqn:Ho.
  2: { erewrite path_owner_malformed by eassumption.
       eapply OwnerMalformed; eassumption. }
  destruct (user_get w o) as [[|user_data]|r] eqn:Hget.
  3: { erewrite path_get_rejected by eassumption.
       eapply GetRejected; eassumption. }
  { erewrite path_user_data_nullish by eassumption.
    eapply UserDataNullish; eassumption. }
  destruct (user_missing user_data) eqn:Hmiss.
  { erewrite path_owner_not_found by eassumption.
    eapply OwnerNotFound; eassumption. }
  destruct (user_update w o (content_or_empty user_data ++ [ObjectId_fresh w])%list
              returnError) as [[]|[|err]] eqn:Hupd.
  { erewrite path_linked by eassumption.
    eapply Linked; eassumption. }
  { erewrite path_update_err_nullish by eassumption.
    eapply UpdateErrNullish; eassumption. }
  destruct (code_is_0 err) eqn:Hcode.
  - erewrite path_update_thrown by eassumption.
    eapply UpdateThrows; eassumption.
  - erewrite path_update_rejected by eassumption.
    eapply UpdateRejected; eassumption.
Qed.

End Paths.

(** ** Type validation *)

Lemma failure_not_resolved {any} (returnError : option bool) (e : ErrorInterface)
    (v : Value any) :
  Rejected (failure returnError e) <> Resolved v.
Proof. discriminate. Qed.

(** C1, as the code has it. The membership test of line 32 runs on the
    type exactly as it is given, before anything else and whatever the
    other arguments are; the type is lowercased only afterwards, for the
    stored record. For every call:
    - a type that is not listed, as given, in [addon.types] is rejected
      with the INVALID_TYPE error (with [false] without [returnError]),
      nothing is thrown and no store is called;
    - with [returnError] set, the call is rejected with the INVALID_TYPE
      error if and only if the type is not listed as given;
    - a call succeeds only if the type is listed as given, and a record
      is handed to [insertOne] only then, its type being the lowercased
      one;
    - a call without owner, with a well-formed addon id and an insert that
      is accepted, succeeds if and only if the type is listed as given. *)
Theorem create_succeeds_iff_type_listed :
  forall any (w : World any) addon type_ content_ returnError,
    (~ In type_ (types addon) ->
     create w addon type_ content_ returnError
       = {| outcome := Rejected (failure returnError (invalid_type_error type_ addon));
            uncaught := None;
            events := [] |})
    /\ (outcome (create w addon type_ content_ (Some true))
          = Rejected (VError (invalid_type_error type_ addon))
        <-> ~ In type_ (types addon))
    /\ (succeeds (create w addon type_ content_ returnError) -> In type_ (types addon))
    /\ (forall doc,
          In doc (inserted (events (create w addon type_ content_ returnError))) ->
          In type_ (types addon) /\ type doc = toLowerCase w type_)
    /\ (forall a,
          ObjectId_parse w (id addon) = Some a ->
          arg_owner content_ = None ->
          insertOne w (built w a type_ content_ None) = None ->
          (succeeds (create w addon type_ content_ returnError) <-> In type_ (types addon))
          /\ (In type_ (types addon) ->
              outcome (create w addon type_ content_ returnError)
                = Resolved (VContent (built w a type_ content_ None))
              /\ type (built w a type_ content_ None) = toLowerCase w type_)).
Proof.
  intros any w addon type_ content_ returnError.
  assert (Hno : forall re, ~ In type_ (types addon) ->
                create w addon type_ content_ re
                  = {| outcome := Rejected (failure re (invalid_type_error type_ addon));
                       uncaught := None;
                       events := [] |}).
  { intros re Hnin. apply includes_not_In in Hnin. now apply path_invalid_type. }
  assert (Hsucc : succeeds (create w addon type_ content_ returnError) ->
                  In type_ (types addon)).
  { intros [rec Hrec].
    destruct (includes (types addon) type_) eqn:Hty.
    - now apply includes_In.
    - apply includes_not_In in Hty. rewrite (Hno _ Hty) in Hrec.
      cbn in Hrec. now apply failure_not_resolved in Hrec. }
  split; [exact (Hno returnError) | split; [| split; [exact Hsucc | split]]].
  - split.
    + intros Hout. apply includes_not_In.
      destruct (includes (types addon) type_) eqn:Hty; [exfalso | reflexivity].
      revert Hout.
      destruct (create_path w addon type_ content_ (Some true)); cbn;
        unfold insert_outcome, failure, invalid_type_error, invalid_owner_error,
          owner_not_found_error, db_error;
        try destruct (insertOne w _); cbn; intros Hx;
        try discriminate Hx; congruence.
    + intros Hnin. now rewrite (Hno _ Hnin).
  - intros doc.
    destruct (create_path w addon type_ content_ returnError); cbn;
      intros Hdoc; try contradiction;
      destruct Hdoc as [<- | []]; cbn;
      (split; [now apply includes_In | reflexivity]).
  - intros a Ha Hown Hins.
    assert (Hyes : In type_ (types addon) ->
                   outcome (create w addon type_ content_ returnError)
                     = Resolved (VContent (built w a type_ content_ None))).
    { intros Hin. apply includes_In in Hin.
      rewrite (path_no_owner w addon type_ content_ returnError Hin Ha Hown).
      cbn. unfold insert_outcome. now rewrite Hins. }
    split; [split |].
    + exact Hsucc.
    + intros Hin. eexists. now apply Hyes.
    + intros Hin. split; [now apply Hyes | reflexivity].
Qed.

Lemma create_succeeds_iff_type_listed_witness :
  (succeeds (create (world_of [] (Fulfilled tt) None) blog "post"
               {| arg_content := "hi"; arg_owner := None |} None)
   <-> In "post" (types blog))
  /\ create (world_of [alice] (Fulfilled tt) None) blog "Post"
       {| arg_content := "hi"; arg_owner := Some "507f191e810c19729de860ea" |} (Some true)
     = {| outcome := Rejected (VError (invalid_type_error "Post" blog));
          uncaught := None;
          events := [] |}.
Proof.
  split.
  - destruct (@create_succeeds_iff_type_listed string (world_of [] (Fulfilled tt) None)
                blog "post" {| arg_content := "hi"; arg_owner := None |} None)
      as (_ & _ & _ & _ & Hiff).
    apply (Hiff {| hex := "507f1f77bcf86cd799439011" |}); reflexivity.
  - destruct (@create_succeeds_iff_type_listed string (world_of [alice] (Fulfilled tt) None)
                blog "Post"
                {| arg_content := "hi"; arg_owner := Some "507f191e810c19729de860ea" |}
                (Some true))
      as (Hrej & _).
    apply Hrej. cbn. intros [Heq | []]. discriminate Heq.
Defined.

(** C1, as the spec states it, fails: the addon lists ["post"], the call
    asks for ["Post"], whose lowercase form is listed, and the call is
    rejected. *)
Lemma create_type_check_is_not_case_insensitive :
  ~ (succeeds (create (world_of [] (Fulfilled tt) None) blog "Post"
                 {| arg_content := "hi"; arg_owner := None |} None)
     <-> In (toLowerCase (world_of [] (Fulfilled tt) None) "Post") (types blog)).
Proof.
  intros [_ H].
  destruct H as [rec Hrec]; [left; reflexivity |].
  vm_compute in Hrec. discriminate Hrec.
Qed.

(** ** Owner validation *)

Lemma isValid_false {any} (w : World any) (raw : RawId) :
  isValid w raw = false <-> ObjectId_parse w raw = None.
Proof.
  unfold isValid. destruct (ObjectId_parse w raw); split; congruence.
Qed.




(** ** Validation comes before any write *)

(** C8. When one of the three validation checks fails (the type is not
    listed; the owner is not a valid id; the owner's user is not there),
    the promise is rejected with the error of that check ([false] without
    [returnError]), nothing is thrown, and no call that writes was made:
    neither [user.update] nor [insertOne]. *)
Theorem validation_failure_writes_nothing :
  forall any (w : World any) addon type_ content_ returnError e,
    ValidationFailure w addon type_ content_ e ->
    outcome (create w addon type_ content_ returnError) = Rejected (failure returnError e)
    /\ uncaught (create w addon type_ content_ returnError) = None
    /\ (forall ev, In ev (events (create w addon type_ content_ returnError)) ->
                   is_write ev = false)
    /\ inserted (events (create w addon type_ content_ returnError)) = [].
Proof.
  intros any w addon type_ content_ returnError e Hfail.
  destruct Hfail as [Hnin | a raw Hin Ha Hown Hbad | a raw o user_data Hin Ha Hown Ho Hget Hmiss].
  - apply includes_not_In in Hnin.
    rewrite (path_invalid_type w addon type_ content_ returnError Hnin). cbn.
    repeat split. intros ev [].
  - apply includes_In in Hin. apply isValid_false in Hbad.
    rewrite (path_owner_malformed w addon type_ content_ returnError Hin Ha Hown Hbad).
    cbn. repeat split. intros ev [].
  - apply includes_In in Hin.
    rewrite (path_owner_not_found w addon type_ content_ returnError Hin Ha Hown Ho Hget Hmiss).
    cbn. repeat split. intros ev [<- | []]. reflexivity.
Qed.

Lemma validation_failure_writes_nothing_witness :
  events (create (world_of [] (Fulfilled tt) None) blog "post"
            {| arg_content := "x"; arg_owner := Some "507f191e810c19729de860ea" |} None)
    = [EvUserGet alice_id]
  /\ inserted (events (create (world_of [] (Fulfilled tt) None) blog "post"
            {| arg_content := "x"; arg_owner := Some "507f191e810c19729de860ea" |} None))
    = [].
Proof.
  split; [reflexivity |].
  apply (@validation_failure_writes_nothing string (world_of [] (Fulfilled tt) None) blog
           "post" {| arg_content := "x"; arg_owner := Some "507f191e810c19729de860ea" |}
           None (owner_not_found_error "507f191e810c19729de860ea")).
  apply (@UserCheckFails string (world_of [] (Fulfilled tt) None) blog "post"
           {| arg_content := "x"; arg_owner := Some "507f191e810c19729de860ea" |}
           {| hex := "507f1f77bcf86cd799439011" |} "507f191e810c19729de860ea"
           alice_id (user_array [])).
  - cbn. left. reflexivity.
  - reflexivity.
  - reflexivity.
  - reflexivity.
  - reflexivity.
  - reflexivity.
Defined.

(** ** The record that is created *)

(** C9. When a call succeeds, the record it resolves with has an empty
    [history], and it is the one record that was handed to [insertOne]. *)
Theorem created_history_is_empty :
  forall any (w : World any) addon type_ content_ returnError rec,
    outcome (create w addon type_ content_ returnError) = Resolved (VContent rec) ->
    history rec = []
    /\ inserted (events (create w addon type_ content_ returnError)) = [rec].
Proof.
  intros any w addon type_ content_ returnError rec Hrec.
  destruct (create_path w addon type_ content_ returnError); cbn in *;
    try discriminate Hrec;
    try (unfold insert_outcome in Hrec; destruct (insertOne w _);
         [discriminate Hrec | injection Hrec as <-; split; reflexivity]).
  destruct err; discriminate Hrec.
Qed.

Lemma created_history_is_empty_witness :
  history (built (world_of [] (Fulfilled tt) None) {| hex := "507f1f77bcf86cd799439011" |}
             "Post" {| arg_content := "hi"; arg_owner := None |} None) = []
  /\ inserted (events (create (world_of [] (Fulfilled tt) None)
                         {| id := "507f1f77bcf86cd799439011"; name := "blog";
                            types := ["Post"] |}
                         "Post" {| arg_content := "hi"; arg_owner := None |} None))
     = [built (world_of [] (Fulfilled tt) None) {| hex := "507f1f77bcf86cd799439011" |}
          "Post" {| arg_content := "hi"; arg_owner := None |} None].
Proof.
  apply (@created_history_is_empty string (world_of [] (Fulfilled tt) None)
           {| id := "507f1f77bcf86cd799439011"; name := "blog"; types := ["Post"] |}
           "Post" {| arg_content := "hi"; arg_owner := None |} None).
  reflexivity.
Defined.

(** ** A call without owner *)

(** C10. When no owner is supplied, the user store is not called (neither
    [user.get] nor [user.update]); the calls are either none (the call
    failed before the insert) or the one [insertOne] of a record without
    owner; and a record the call resolves with has no owner. *)
Theorem no_owner_leaves_user_store_alone :
  forall any (w : World any) addon type_ content_ returnError,
    arg_owner content_ = None ->
    (forall ev, In ev (events (create w addon type_ content_ returnError)) ->
                is_user_call ev = false)
    /\ (events (create w addon type_ content_ returnError) = []
        \/ exists doc,
             events (create w addon type_ content_ returnError) = [EvInsertOne doc]
             /\ owner doc = None)
    /\ (forall rec,
          outcome (create w addon type_ content_ returnError) = Resolved (VContent rec) ->
          owner rec = None)
    /\ (forall a,
          In type_ (types addon) ->
          ObjectId_parse w (id addon) = Some a ->
          events (create w addon type_ content_ returnError)
            = [EvInsertOne (built w a type_ content_ None)]).
Proof.
  intros any w addon type_ content_ returnError Hown.
  assert (Hcases :
    (exists v x, create w addon type_ content_ returnError
                 = {| outcome := v; uncaught := x; events := [] |}
                 /\ forall rec, v <> Resolved (VContent rec))
    \/ (exists a, includes (types addon) type_ = true
                  /\ ObjectId_parse w (id addon) = Some a
                  /\ create w addon type_ content_ returnError
                     = {| outcome := insert_outcome w returnError
                                       (built w a type_ content_ None);
                          uncaught := None;
                          events := [EvInsertOne (built w a type_ content_ None)] |})).
  { destruct (create_path w addon type_ content_ returnError); try congruence.
    - left. do 2 eexists. split; [reflexivity |].
      intros rec. apply failure_not_resolved.
    - left. do 2 eexists. split; [reflexivity | discriminate].
    - right. exists a. repeat split; assumption. }
  destruct Hcases as [(v & x & Heq & Hv) | (a & Hty & Ha & ->)]; cbn.
  - repeat split; try rewrite Heq; cbn.
    + intros ev [].
    + now left.
    + intros rec Hrec. now apply Hv in Hrec.
    + intros a Hin Ha. apply includes_In in Hin.
      pose proof (path_no_owner w addon type_ content_ returnError Hin Ha Hown) as Hp.
      rewrite Heq in Hp. discriminate Hp.
  - repeat split.
    + intros ev [<- | []]. reflexivity.
    + right. eexists. split; reflexivity.
    + intros rec Hrec. unfold insert_outcome in Hrec.
      destruct (insertOne w _); [discriminate Hrec |].
      injection Hrec as <-. reflexivity.
    + intros a' _ Ha'. congruence.
Qed.

Lemma no_owner_leaves_user_store_alone_witness :
  events (create (world_of [alice] (Fulfilled tt) None) blog "post"
            {| arg_content := "x"; arg_owner := None |} (Some true))
  = [EvInsertOne (built (world_of [alice] (Fulfilled tt) None)
                    {| hex := "507f1f77bcf86cd799439011" |} "post"
                    {| arg_content := "x"; arg_owner := None |} None)].
Proof.
  destruct (@no_owner_leaves_user_store_alone string
              (world_of [alice] (Fulfilled tt) None) blog "post"
              {| arg_content := "x"; arg_owner := None |} (Some true) eq_refl)
    as (_ & _ & _ & Hevents).
  apply Hevents.
  - cbn. left. reflexivity.
  - reflexivity.
Defined.

(** ** The owner that is not found *)

Lemma append_cancel_l (p s1 s2 : string) : p ++ s1 = p ++ s2 -> s1 = s2.
Proof.
  induction p as [| c p IH]; cbn; intros H.
  - exact H.
  - injection H as H. now apply IH.
Qed.

Lemma owner_messages_differ (raw : RawId) :
  message (owner_not_found_error raw) <> message (invalid_owner_error raw).
Proof.
  unfold owner_not_found_error, invalid_owner_error. cbn [message]. intros H.
  injection H as H.
  apply append_cancel_l in H. discriminate H.
Qed.

(** C3, as the code has it. A well-formed owner id whose user is not
    there is rejected after the one [user.get], with the error of kind
    INVALID_ID ([false] without [returnError]): the same kind as for a
    malformed owner id. The two errors differ in their message only. *)
Theorem owner_not_found_is_reported_as_invalid_id :
  forall any (w : World any) addon type_ content_ returnError a raw o
         (user_data : UserData),
    In type_ (types addon) ->
    ObjectId_parse w (id addon) = Some a ->
    arg_owner content_ = Some raw ->
    ObjectId_parse w raw = Some o ->
    user_get w o = Fulfilled user_data ->
    user_missing user_data = true ->
    create w addon type_ content_ returnError
      = {| outcome := Rejected (failure returnError (owner_not_found_error raw));
           uncaught := None;
           events := [EvUserGet o] |}
    /\ local_key (owner_not_found_error raw) = Some INVALID_ID
    /\ local_key (owner_not_found_error raw) = local_key (invalid_owner_error raw)
    /\ message (owner_not_found_error raw) <> message (invalid_owner_error raw).
Proof.
  intros any w addon type_ content_ returnError a raw o user_data
    Hin Ha Hown Ho Hget Hmiss.
  apply includes_In in Hin.
  split; [| split; [| split]].
  - now apply (path_owner_not_found w addon type_ content_ returnError Hin Ha Hown Ho Hget).
  - reflexivity.
  - reflexivity.
  - apply owner_messages_differ.
Qed.

Lemma owner_not_found_is_reported_as_invalid_id_witness :
  create (world_of [] (Fulfilled tt) None) blog "post"
    {| arg_content := "x"; arg_owner := Some "507f191e810c19729de860ea" |} (Some true)
  = {| outcome := Rejected (VError (owner_not_found_error "507f191e810c19729de860ea"));
       uncaught := None;
       events := [EvUserGet alice_id] |}.
Proof.
  apply (@owner_not_found_is_reported_as_invalid_id string
           (world_of [] (Fulfilled tt) None) blog "post"
           {| arg_content := "x"; arg_owner := Some "507f191e810c19729de860ea" |}
           (Some true) {| hex := "507f1f77bcf86cd799439011" |}
           "507f191e810c19729de860ea" alice_id (user_array [])).
  - cbn. left. reflexivity.
  - reflexivity.
  - reflexivity.
  - reflexivity.
  - reflexivity.
  - reflexivity.
Defined.

(** C3, as the spec states it, fails: in a world without users, the call
    with a well-formed owner id and the call with a malformed one are
    rejected with the same error kind. *)
Lemma owner_not_found_kind_is_not_distinct :
  ~ (kind_of (create (world_of [] (Fulfilled tt) None) blog "post"
                {| arg_content := "x"; arg_owner := Some "507f191e810c19729de860ea" |}
                (Some true))
     <> kind_of (create (world_of [] (Fulfilled tt) None) blog "post"
                   {| arg_content := "x"; arg_owner := Some "not-a-valid-id" |}
                   (Some true))).
Proof.
  intros H. apply H. reflexivity.
Qed.

(** ** The update of the owner's content list *)

(** What line 87 sends: the [content] property of what [user.get]
    resolved to, with the new id appended. When that value is an array
    of user documents it has no [content] property, and the list that is
    sent holds the new id alone, whatever the user's document lists. *)
Lemma update_sent_for_array :
  forall any (w : World any) addon type_ content_ returnError a raw o doc docs,
    In type_ (types addon) ->
    ObjectId_parse w (id addon) = Some a ->
    arg_owner content_ = Some raw ->
    ObjectId_parse w raw = Some o ->
    user_get w o = Fulfilled (user_array (doc :: docs)) ->
    updates_of o (events (create w addon type_ content_ returnError))
      = [[ObjectId_fresh w]].
Proof.
  intros any w addon type_ content_ returnError a raw o doc docs Hin Ha Hown Ho Hget.
  apply includes_In in Hin.
  assert (Hmiss : user_missing (user_array (doc :: docs)) = false) by reflexivity.
  destruct (user_update w o (content_or_empty (user_array (doc :: docs))
                               ++ [ObjectId_fresh w])%list returnError)
    as [[]|[|err]] eqn:Hupd.
  - rewrite (path_linked w addon type_ content_ returnError
               Hin Ha Hown Ho Hget Hmiss Hupd).
    cbn. now rewrite String.eqb_refl.
  - rewrite (path_update_err_nullish w addon type_ content_ returnError
               Hin Ha Hown Ho Hget Hmiss Hupd).
    cbn. now rewrite String.eqb_refl.
  - destruct (code_is_0 err) eqn:Hcode.
    + rewrite (path_update_thrown w addon type_ content_ returnError
                 Hin Ha Hown Ho Hget Hmiss Hupd Hcode).
      cbn. now rewrite String.eqb_refl.
    + rewrite (path_update_rejected w addon type_ content_ returnError
                 Hin Ha Hown Ho Hget Hmiss Hupd Hcode).
      cbn. now rewrite String.eqb_refl.
Qed.

(** C7 on the code. Alice owns an older record. A call with Alice as
    owner succeeds, and the one update of Alice's content list is the
    list of the new id alone: the older record is not in it. *)
Theorem attach_overwrites_owned_content :
  succeeds (create (world_of [alice] (Fulfilled tt) None) blog "post"
              {| arg_content := "x"; arg_owner := Some "507f191e810c19729de860ea" |}
              (Some true))
  /\ user_content alice = Some [older_record]
  /\ updates_of alice_id
       (events (create (world_of [alice] (Fulfilled tt) None) blog "post"
                  {| arg_content := "x"; arg_owner := Some "507f191e810c19729de860ea" |}
                  (Some true)))
     = [[fresh_record]]
  /\ ~ In older_record [fresh_record].
Proof.
  split; [| split; [| split]].
  - eexists. vm_compute. reflexivity.
  - reflexivity.
  - vm_compute. reflexivity.
  - intros [H | []]. discriminate H.
Qed.

(** ** A failed update of the owner *)

(** C2 on the code. Alice is there, [user.update] rejects with an error
    whose code is 1, the collection accepts the insert. The handler
    resolves the promise with that error and returns to the executor,
    which goes on: the record, with Alice as owner, is handed to
    [insertOne]. *)
Theorem failed_update_still_inserts :
  create (world_of [alice] (RejectedWith (FError ledger_error)) None) blog "post"
    {| arg_content := "x"; arg_owner := Some "507f191e810c19729de860ea" |} (Some true)
  = {| outcome := Resolved (VError ledger_error);
       uncaught := None;
       events := [EvUserGet alice_id;
                  EvUserUpdate alice_id [fresh_record] (Some true);
                  EvInsertOne {| _id := fresh_record;
                                 addon_id := {| hex := "507f1f77bcf86cd799439011" |};
                                 type := "post";
                                 owner := Some alice_id;
                                 history := [];
                                 content := "x" |}] |}.
Proof. vm_compute. reflexivity. Qed.

(** ** The two ways a failure is reported *)

(** The errors of the three validation checks carry the four properties. *)
Lemma validation_errors_have_all_fields :
  forall any (w : World any) addon type_ content_ e,
    ValidationFailure w addon type_ content_ e -> has_all_fields e = true.
Proof.
  intros any w addon type_ content_ e H. destruct H; reflexivity.
Qed.

(** The error of a failed insert has no [code], for every message. *)
Lemma db_error_lacks_code (err_message : option string) :
  code (db_error err_message) = None /\ has_all_fields (db_error err_message) = false.
Proof. split; reflexivity. Qed.

(** C4 on the code. With [returnError] set: a failed insert is rejected
    with an object that has no [code]; a failed update whose error has
    code 0 makes the handler throw, and the promise is left pending. *)
Theorem failures_outside_the_two_channels :
  (create (world_of [] (Fulfilled tt) (Some (Some "E11000 duplicate key"))) blog "post"
     {| arg_content := "x"; arg_owner := None |} (Some true)
   = {| outcome := Rejected (VError {| code := None;
                                       local_key := Some DB_ERROR;
                                       where_ := Some "update.ts";
                                       message := Some "E11000 duplicate key" |});
        uncaught := None;
        events := [EvInsertOne {| _id := fresh_record;
                                  addon_id := {| hex := "507f1f77bcf86cd799439011" |};
                                  type := "post";
                                  owner := None;
                                  history := [];
                                  content := "x" |}] |})
  /\ has_all_fields (db_error (Some "E11000 duplicate key")) = false
  /\ create (world_of [alice] (RejectedWith (FError fatal_error)) None) blog "post"
       {| arg_content := "x"; arg_owner := Some "507f191e810c19729de860ea" |} (Some true)
     = {| outcome := Pending;
          uncaught := Some (JsError (Some "connection lost"));
          events := [EvUserGet alice_id;
                     EvUserUpdate alice_id [fresh_record] (Some true)] |}.
Proof.
  split; [| split]; vm_compute; reflexivity.
Qed.

(** ** The addon id *)

(** C5 on the code. The addon id is given to [new ObjectId] as it is;
    with a malformed one the constructor throws in the executor: the
    promise is never settled, in either mode. *)
Theorem malformed_addon_id_throws :
  forall returnError,
    create (world_of [] (Fulfilled tt) None)
      {| id := "not-a-valid-id"; name := "blog"; types := ["post"] |} "post"
      {| arg_content := "x"; arg_owner := None |} returnError
    = {| outcome := Pending;
         uncaught := Some (BSONError "not-a-valid-id");
         events := [] |}.
Proof.
  intros returnError. apply path_addon_id_malformed; reflexivity.
Qed.

(** ** Further properties of [create] *)

(** X1. The promise is left pending exactly when an exception left the
    executor: a call in which nothing is thrown always settles, and a call
    in which something is thrown never does. *)
Theorem pending_iff_uncaught :
  forall any (w : World any) addon type_ content_ returnError,
    outcome (create w addon type_ content_ returnError) = Pending
    <-> uncaught (create w addon type_ content_ returnError) <> None.
Proof.
  intros any w addon type_ content_ returnError.
  destruct (create_path w addon type_ content_ returnError); cbn;
    unfold insert_outcome; try destruct (insertOne w _);
    split; intros Hx; try discriminate Hx; try congruence;
    exfalso; now apply Hx.
Qed.

(** X2. Without [returnError === true] a rejection carries no detail:
    whenever the promise is rejected, it is rejected with [false]. *)
Theorem boolean_mode_rejects_with_false :
  forall any (w : World any) addon type_ content_ returnError,
    is_true returnError = false ->
    outcome (create w addon type_ content_ returnError) = Pending
    \/ (exists v, outcome (create w addon type_ content_ returnError) = Resolved v)
    \/ outcome (create w addon type_ content_ returnError) = Rejected VFalse.
Proof.
  intros any w addon type_ content_ returnError Hmode.
  destruct (create_path w addon type_ content_ returnError); cbn;
    unfold insert_outcome, failure; try destruct (insertOne w _);
    rewrite ?Hmode; eauto.
Qed.

Lemma boolean_mode_rejects_with_false_witness :
  outcome (create (world_of [] (Fulfilled tt) (Some (Some "E11000 duplicate key")))
             blog "post" {| arg_content := "x"; arg_owner := None |} (Some false))
  = Rejected VFalse.
Proof.
  destruct (@boolean_mode_rejects_with_false string
              (world_of [] (Fulfilled tt) (Some (Some "E11000 duplicate key")))
              blog "post" {| arg_content := "x"; arg_owner := None |} (Some false)
              eq_refl) as [Hp | [[v Hr] | Hrej]].
  - discriminate Hp.
  - discriminate Hr.
  - exact Hrej.
Defined.

(** X3. With [returnError === true] every rejection is an error object
    that names its kind and its origin: the kind is INVALID_TYPE,
    INVALID_ID or DB_ERROR, the origin is set, and the code is 1 for the
    two validation kinds and absent for DB_ERROR. *)
Theorem structured_mode_rejects_with_error :
  forall any (w : World any) addon type_ content_ v,
    outcome (create w addon type_ content_ (Some true)) = Rejected v ->
    exists e,
      v = VError e
      /\ where_ e <> None
      /\ ((local_key e = Some INVALID_TYPE /\ code e = Some 1%Z)
          \/ (local_key e = Some INVALID_ID /\ code e = Some 1%Z)
          \/ (local_key e = Some DB_ERROR /\ code e = None)).
Proof.
  intros any w addon type_ content_ v.
  destruct (create_path w addon type_ content_ (Some true)); cbn;
    unfold insert_outcome, failure; try destruct (insertOne w _); cbn;
    intros Hx; try discriminate Hx; injection Hx as <-;
    eexists; (split; [reflexivity | split; [discriminate | cbn; tauto]]).
Qed.

Lemma structured_mode_rejects_with_error_witness :
  exists e,
    VError (invalid_type_error "comment" blog) = @VError string e
    /\ where_ e <> None
    /\ ((local_key e = Some INVALID_TYPE /\ code e = Some 1%Z)
        \/ (local_key e = Some INVALID_ID /\ code e = Some 1%Z)
        \/ (local_key e = Some DB_ERROR /\ code e = None)).
Proof.
  apply (@structured_mode_rejects_with_error string (world_of [] (Fulfilled tt) None)
           blog "comment" {| arg_content := "x"; arg_owner := None |}).
  reflexivity.
Defined.

(** X4. The stores are called in one fixed order and at most once each:
    the calls of a run are a prefix of [user.get], [user.update],
    [insertOne], or the lone [insertOne] of a record without owner. The
    user that is read is the one that is updated and the one the record
    names as its owner; the list sent to [user.update] ends with the id
    of the new record, and [returnError] is passed on to it as given. *)
Theorem store_calls_shape :
  forall any (w : World any) addon type_ content_ returnError,
    let evs := events (create w addon type_ content_ returnError) in
    evs = []
    \/ (exists doc, evs = [EvInsertOne doc] /\ owner doc = None)
    \/ (exists raw o,
          arg_owner content_ = Some raw /\ ObjectId_parse w raw = Some o
          /\ (evs = [EvUserGet o]
              \/ (exists old,
                    evs = [EvUserGet o;
                           EvUserUpdate o (old ++ [ObjectId_fresh w])%list returnError])
              \/ (exists old doc,
                    evs = [EvUserGet o;
                           EvUserUpdate o (old ++ [_id doc])%list returnError;
                           EvInsertOne doc]
                    /\ owner doc = Some o))).
Proof.
  intros any w addon type_ content_ returnError.
  destruct (create_path w addon type_ content_ returnError); cbn.
  - now left.
  - now left.
  - now left.
  - right; left. eexists. split; reflexivity.
  - right; right. exists raw, o. repeat split; try assumption. now left.
  - right; right. exists raw, o. repeat split; try assumption. now left.
  - right; right. exists raw, o. repeat split; try assumption.
    right; right.
    exists (content_or_empty user_data), (built w a type_ content_ (Some o)).
    split; reflexivity.
  - right; right. exists raw, o. repeat split; try assumption.
    right; left. eexists. reflexivity.
  - right; right. exists raw, o. repeat split; try assumption.
    right; right.
    exists (content_or_empty user_data), (built w a type_ content_ (Some o)).
    split; reflexivity.
  - right; right. exists raw, o. repeat split; try assumption. now left.
  - right; right. exists raw, o. repeat split; try assumption.
    right; left. eexists. reflexivity.
Qed.

(** X5. The two writes are not atomic. When the owner is there, the
    update of the owner succeeds and the collection then refuses the
    insert, the promise is rejected with the DB_ERROR error (or [false])
    although the owner's content list has already been sent with the id
    of the record that was not stored. *)
Theorem failed_insert_leaves_owner_updated :
  forall any (w : World any) addon type_ content_ returnError a raw o
         (user_data : UserData) err_message,
    In type_ (types addon) ->
    ObjectId_parse w (id addon) = Some a ->
    arg_owner content_ = Some raw ->
    ObjectId_parse w raw = Some o ->
    user_get w o = Fulfilled user_data ->
    user_missing user_data = false ->
    user_update w o (content_or_empty user_data ++ [ObjectId_fresh w])%list returnError
      = Fulfilled tt ->
    insertOne w (built w a type_ content_ (Some o)) = Some err_message ->
    outcome (create w addon type_ content_ returnError)
      = Rejected (failure returnError (db_error err_message))
    /\ updates_of o (events (create w addon type_ content_ returnError))
       = [(content_or_empty user_data ++ [_id (built w a type_ content_ (Some o))])%list].
Proof.
  intros any w addon type_ content_ returnError a raw o user_data err_message
    Hin Ha Hown Ho Hget Hmiss Hupd Hins.
  apply includes_In in Hin.
  rewrite (path_linked w addon type_ content_ returnError Hin Ha Hown Ho Hget Hmiss Hupd).
  cbn. unfold insert_outcome. rewrite Hins, String.eqb_refl. split; reflexivity.
Qed.

Lemma failed_insert_leaves_owner_updated_witness :
  outcome (create (world_of [alice] (Fulfilled tt) (Some (Some "E11000 duplicate key")))
             blog "post"
             {| arg_content := "x"; arg_owner := Some "507f191e810c19729de860ea" |}
             (Some true))
    = Rejected (VError (db_error (Some "E11000 duplicate key")))
  /\ updates_of alice_id
       (events (create (world_of [alice] (Fulfilled tt) (Some (Some "E11000 duplicate key")))
                  blog "post"
                  {| arg_content := "x"; arg_owner := Some "507f191e810c19729de860ea" |}
                  (Some true)))
     = [[fresh_record]].
Proof.
  apply (@failed_insert_leaves_owner_updated string
           (world_of [alice] (Fulfilled tt) (Some (Some "E11000 duplicate key")))
           blog "post"
           {| arg_content := "x"; arg_owner := Some "507f191e810c19729de860ea" |}
           (Some true) {| hex := "507f1f77bcf86cd799439011" |}
           "507f191e810c19729de860ea" alice_id (user_array [alice])
           (Some "E11000 duplicate key")).
  - cbn. left. reflexivity.
  - reflexivity.
  - reflexivity.
  - reflexivity.
  - reflexivity.
  - reflexivity.
  - reflexivity.
  - reflexivity.
Defined.

(** X6. The promise settles whenever the addon id is well-formed,
    [user.get] resolves to a value (it does not reject, and the value is
    neither [null] nor [undefined]) and [user.update] is fulfilled or
    rejects with a value (neither [null] nor [undefined]) whose code is
    not 0: under these conditions nothing is thrown and the promise is
    resolved or rejected. *)
Theorem create_settles :
  forall any (w : World any) addon type_ content_ returnError a,
    ObjectId_parse w (id addon) = Some a ->
    (forall o, exists user_data : UserData, user_get w o = Fulfilled user_data) ->
    (forall o l,
        user_update w o l returnError = Fulfilled tt
        \/ exists err : Failure,
             user_update w o l returnError = RejectedWith err
             /\ code_is_0 err = false) ->
    outcome (create w addon type_ content_ returnError) <> Pending
    /\ uncaught (create w addon type_ content_ returnError) = None.
Proof.
  intros any w addon type_ content_ returnError a Ha Hget Hupd.
  destruct (create_path w addon type_ content_ returnError) as
    [Hty | Hty Ha' | a' raw Hty Ha' Hown Ho | a' Hty Ha' Hown
     | a' raw o r Hty Ha' Hown Ho Hg | a' raw o ud Hty Ha' Hown Ho Hg Hmiss
     | a' raw o ud Hty Ha' Hown Ho Hg Hmiss Hu
     | a' raw o ud err Hty Ha' Hown Ho Hg Hmiss Hu Hcode
     | a' raw o ud err Hty Ha' Hown Ho Hg Hmiss Hu Hcode
     | a' raw o Hty Ha' Hown Ho Hg
     | a' raw o ud Hty Ha' Hown Ho Hg Hmiss Hu]; cbn;
    unfold insert_outcome; try destruct (insertOne w _);
    try (split; [discriminate | reflexivity]).
  - congruence.
  - destruct (Hget o) as [ud Hud]. congruence.
  - destruct (Hupd o (content_or_empty ud ++ [ObjectId_fresh w])%list)
      as [Hok | (err' & Hrej & Hc)]; [congruence |].
    rewrite Hu in Hrej. injection Hrej as <-. congruence.
  - destruct (Hget o) as [ud Hud]. congruence.
  - destruct (Hupd o (content_or_empty ud ++ [ObjectId_fresh w])%list)
      as [Hok | (err' & Hrej & Hc)]; congruence.
Qed.

Lemma create_settles_witness :
  outcome (create (world_of [alice] (RejectedWith FFalse) None) blog "post"
             {| arg_content := "x"; arg_owner := Some "507f191e810c19729de860ea" |} None)
    <> Pending
  /\ uncaught (create (world_of [alice] (RejectedWith FFalse) None) blog "post"
             {| arg_content := "x"; arg_owner := Some "507f191e810c19729de860ea" |} None)
     = None.
Proof.
  apply (@create_settles string (world_of [alice] (RejectedWith FFalse) None) blog "post"
           {| arg_content := "x"; arg_owner := Some "507f191e810c19729de860ea" |} None
           {| hex := "507f1f77bcf86cd799439011" |}).
  - reflexivity.
  - intros o. cbn. eexists. reflexivity.
  - intros o l. right. exists FFalse. cbn. split; reflexivity.
Defined.

(** X7. What is handed to [insertOne]. The type was listed as given; the
    record's id is the fresh one, its addon id the canonical form of
    [addon.id], its content the payload unchanged, its history empty, and
    its owner is unset when none was given and the canonical form of the
    given owner otherwise. *)
Theorem inserted_record_fields :
  forall any (w : World any) addon type_ content_ returnError doc,
    In doc (inserted (events (create w addon type_ content_ returnError))) ->
    In type_ (types addon)
    /\ ObjectId_parse w (id addon) = Some (addon_id doc)
    /\ _id doc = ObjectId_fresh w
    /\ content doc = arg_content content_
    /\ history doc = []
    /\ owner doc = match arg_owner content_ with
                   | Some raw => ObjectId_parse w raw
                   | None => None
                   end.
Proof.
  intros any w addon type_ content_ returnError doc.
  destruct (create_path w addon type_ content_ returnError); cbn;
    intros Hdoc; try contradiction;
    destruct Hdoc as [<- | []]; cbn;
    repeat match goal with
           | Hown : arg_owner content_ = _ |- _ => rewrite Hown; clear Hown
           end;
    repeat split; try assumption; try (symmetry; assumption);
    now apply includes_In.
Qed.

Lemma inserted_record_fields_witness :
  In "post" (types blog)
  /\ hex24 (id blog) = Some {| hex := "507f1f77bcf86cd799439011" |}
  /\ fresh_record = fresh_record
  /\ "x" = "x"
  /\ @nil (HistoryEntry string) = []
  /\ Some alice_id = hex24 "507F191E810C19729DE860EA".
Proof.
  apply (@inserted_record_fields string (world_of [alice] (Fulfilled tt) None) blog "post"
           {| arg_content := "x"; arg_owner := Some "507F191E810C19729DE860EA" |} None
           {| _id := fresh_record;
              addon_id := {| hex := "507f1f77bcf86cd799439011" |};
              type := "post";
              owner := Some alice_id;
              history := [];
              content := "x" |}).
  cbn. left. reflexivity.
Defined.

(** X8. The type of every record handed to [insertOne] is the given
    type put through [toLowerCase]; so when the given type is its own
    lowercase form, the stored type is one of [addon.types]. *)
Theorem inserted_type_is_lowercase :
  forall any (w : World any) addon type_ content_ returnError doc,
    In doc (inserted (events (create w addon type_ content_ returnError))) ->
    type doc = toLowerCase w type_
    /\ (toLowerCase w type_ = type_ -> In (type doc) (types addon)).
Proof.
  intros any w addon type_ content_ returnError doc.
  destruct (create_path w addon type_ content_ returnError) as
    [Hty | Hty Ha' | a' raw Hty Ha' Hown Ho | a' Hty Ha' Hown
     | a' raw o r Hty Ha' Hown Ho Hg | a' raw o ud Hty Ha' Hown Ho Hg Hmiss
     | a' raw o ud Hty Ha' Hown Ho Hg Hmiss Hu
     | a' raw o ud err Hty Ha' Hown Ho Hg Hmiss Hu Hcode
     | a' raw o ud err Hty Ha' Hown Ho Hg Hmiss Hu Hcode
     | a' raw o Hty Ha' Hown Ho Hg
     | a' raw o ud Hty Ha' Hown Ho Hg Hmiss Hu]; cbn;
    intros Hdoc; try contradiction;
    destruct Hdoc as [<- | []]; cbn;
    (split; [reflexivity | intros ->; now apply includes_In]).
Qed.

Lemma inserted_type_is_lowercase_witness :
  "post" = ascii_toLowerCase "post"
  /\ (ascii_toLowerCase "post" = "post" -> In "post" ["post"; "Page"]).
Proof.
  apply (@inserted_type_is_lowercase string (world_of [] (Fulfilled tt) None)
           {| id := "507f1f77bcf86cd799439011"; name := "blog"; types := ["post"; "Page"] |}
           "post" {| arg_content := "x"; arg_owner := None |} None
           {| _id := fresh_record;
              addon_id := {| hex := "507f1f77bcf86cd799439011" |};
              type := "post";
              owner := None;
              history := [];
              content := "x" |}).
  cbn. left. reflexivity.
Defined.

(** X9. The stored type need not be a listed type. When the addon lists
    a type whose lowercase form it does not list, a call with that type
    (no owner, well-formed addon id, insert accepted) succeeds and the
    record it stores has a type that is not in [addon.types]. *)
Theorem stored_type_may_be_unlisted :
  forall any (w : World any) addon type_ content_ returnError a,
    In type_ (types addon) ->
    ~ In (toLowerCase w type_) (types addon) ->
    ObjectId_parse w (id addon) = Some a ->
    arg_owner content_ = None ->
    insertOne w (built w a type_ content_ None) = None ->
    exists rec,
      outcome (create w addon type_ content_ returnError) = Resolved (VContent rec)
      /\ inserted (events (create w addon type_ content_ returnError)) = [rec]
      /\ ~ In (type rec) (types addon).
Proof.
  intros any w addon type_ content_ returnError a Hin Hlow Ha Hown Hins.
  apply includes_In in Hin.
  rewrite (path_no_owner w addon type_ content_ returnError Hin Ha Hown). cbn.
  unfold insert_outcome. rewrite Hins.
  eexists. split; [reflexivity | split; [reflexivity | exact Hlow]].
Qed.

Lemma stored_type_may_be_unlisted_witness :
  exists rec,
    outcome (create (world_of [] (Fulfilled tt) None)
               {| id := "507f1f77bcf86cd799439011"; name := "blog"; types := ["Post"] |}
               "Post" {| arg_content := "hi"; arg_owner := None |} None)
      = Resolved (VContent rec)
    /\ inserted (events (create (world_of [] (Fulfilled tt) None)
               {| id := "507f1f77bcf86cd799439011"; name := "blog"; types := ["Post"] |}
               "Post" {| arg_content := "hi"; arg_owner := None |} None)) = [rec]
    /\ ~ In (type rec) ["Post"].
Proof.
  apply (@stored_type_may_be_unlisted string (world_of [] (Fulfilled tt) None)
           {| id := "507f1f77bcf86cd799439011"; name := "blog"; types := ["Post"] |}
           "Post" {| arg_content := "hi"; arg_owner := None |} None
           {| hex := "507f1f77bcf86cd799439011" |}).
  - cbn. left. reflexivity.
  - cbn. intros [Heq | []]. discriminate Heq.
  - reflexivity.
  - reflexivity.
  - reflexivity.
Defined.

(** X10. When a call succeeds. The promise is resolved with the record
    exactly when the type is listed as given, the addon id is
    well-formed, the collection accepts the insert and, if an owner is
    given, it is a valid id whose user is there and whose update was
    fulfilled. *)
Theorem succeeds_iff :
  forall any (w : World any) addon type_ content_ returnError,
    succeeds (create w addon type_ content_ returnError)
    <-> exists a,
          In type_ (types addon)
          /\ ObjectId_parse w (id addon) = Some a
          /\ ((arg_owner content_ = None
               /\ insertOne w (built w a type_ content_ None) = None)
              \/ (exists raw o (user_data : UserData),
                    arg_owner content_ = Some raw
                    /\ ObjectId_parse w raw = Some o
                    /\ user_get w o = Fulfilled user_data
                    /\ user_missing user_data = false
                    /\ user_update w o
                         (content_or_empty user_data ++ [ObjectId_fresh w])%list
                         returnError = Fulfilled tt
                    /\ insertOne w (built w a type_ content_ (Some o)) = None)).
Proof.
  intros any w addon type_ content_ returnError. split.
  - intros [rec Hrec]. revert Hrec.
    destruct (create_path w addon type_ content_ returnError) as
      [Hty | Hty Ha | a raw Hty Ha Hown Ho | a Hty Ha Hown
       | a raw o r Hty Ha Hown Ho Hget | a raw o ud Hty Ha Hown Ho Hget Hmiss
       | a raw o ud Hty Ha Hown Ho Hget Hmiss Hupd
       | a raw o ud err Hty Ha Hown Ho Hget Hmiss Hupd Hcode
       | a raw o ud err Hty Ha Hown Ho Hget Hmiss Hupd Hcode
       | a raw o Hty Ha Hown Ho Hget
       | a raw o ud Hty Ha Hown Ho Hget Hmiss Hupd];
      cbn; intros Hrec; try discriminate Hrec.
    + unfold insert_outcome in Hrec.
      destruct (insertOne w _) eqn:Hins; [discriminate Hrec |].
      exists a. apply includes_In in Hty. repeat split; try assumption.
      left. split; assumption.
    + unfold insert_outcome in Hrec.
      destruct (insertOne w _) eqn:Hins; [discriminate Hrec |].
      exists a. apply includes_In in Hty. repeat split; try assumption.
      right. exists raw, o, ud. repeat split; assumption.
    + destruct err; discriminate Hrec.
  - intros (a & Hin & Ha & [[Hown Hins] | (raw & o & ud & Hown & Ho & Hget & Hmiss & Hupd & Hins)]);
      apply includes_In in Hin.
    + rewrite (path_no_owner w addon type_ content_ returnError Hin Ha Hown).
      unfold succeeds, insert_outcome. cbn. rewrite Hins. eexists. reflexivity.
    + rewrite (path_linked w addon type_ content_ returnError Hin Ha Hown Ho Hget Hmiss Hupd).
      unfold succeeds, insert_outcome. cbn. rewrite Hins. eexists. reflexivity.
Qed.

(** ** Objects *)

Section Objects.
Variable V : Type.
Implicit Types (o s t : Obj V) (k : string) (v : V).




Lemma obj_get_In o k v : obj_get o k = Some v -> In k (obj_keys o).
Proof.
  induction o as [| [k' v'] rest IH]; cbn; [discriminate |].
  destruct (String.eqb k k') eqn:E.
  - apply String.eqb_eq in E. intros _. now left.
  - intros H. right. now apply IH.
Qed.

Lemma obj_get_None o k : obj_get o k = None <-> ~ In k (obj_keys o).
Proof.
  induction o as [| [k' v'] rest IH]; cbn.
  - tauto.
  - destruct (String.eqb k k') eqn:E.
    + apply String.eqb_eq in E. subst. split; [discriminate | tauto].
    + apply String.eqb_neq in E. rewrite IH. split.
      * intros Hn [Heq | Hin]; [congruence | tauto].
      * tauto.
Qed.

(** A set removes no key. *)
Lemma obj_keys_set_incl o k v k' :
  In k' (obj_keys o) -> In k' (obj_keys (obj_set o k v)).
Proof.
  induction o as [| [k0 v0] rest IH]; cbn; [tauto |].
  destruct (String.eqb k k0); cbn; intros [Heq | Hin]; auto.
Qed.

Lemma Object_assign_keys_incl t s k :
  In k (obj_keys t) -> In k (obj_keys (Object_assign t s)).
Proof.
  unfold Object_assign. revert t.
  induction s as [| [k1 v1] rest IH]; cbn; intros t H; [exact H |].
  apply IH. now apply obj_keys_set_incl.
Qed.




End Objects.

(** ** Registrations *)

Section Registry.
Variables S V : Type.
Variable env : ApiEnv S.

Lemma expandGQL_app_stack path file_name (resolver : Obj V) (st : ApiState S V) :
  app_stack (snd (expandGQL env path file_name resolver st)) = app_stack st.
Proof.
  unfold expandGQL. destruct (readFileSync env _); reflexivity.
Qed.

Lemma expand_all_app_stack (regs : list (Registration V)) (st : ApiState S V) :
  app_stack (expand_all env regs st) = app_stack st.
Proof.
  revert st. induction regs as [| r rest IH]; cbn; intros st; [reflexivity |].
  now rewrite IH, expandGQL_app_stack.
Qed.

Lemma expandGQL_schemas (r : Registration V) (st : ApiState S V) :
  schemas (snd (expandGQL env (reg_path r) (reg_file r) (reg_resolver r) st))
  = (schemas st ++ text_of env r)%list.
Proof.
  unfold expandGQL, text_of. destruct (readFileSync env _); cbn.
  - reflexivity.
  - now rewrite app_nil_r.
Qed.

Lemma expandGQL_keeps_keys path file_name (resolver : Obj V) (st : ApiState S V) k :
  In k (obj_keys (heap st root_resolver)) ->
  In k (obj_keys (heap (snd (expandGQL env path file_name resolver st)) root_resolver)).
Proof.
  unfold expandGQL. destruct (readFileSync env _); cbn; [| tauto].
  apply Object_assign_keys_incl.
Qed.

End Registry.

(** X11. After any sequence of registrations the array [schemas] holds,
    after what it held before, the texts of the files that could be read,
    one per call and in the order of the calls; a call whose file cannot
    be read adds nothing. *)
Theorem schemas_after_registrations :
  forall S V (env : ApiEnv S) (regs : list (Registration V)) (st : ApiState S V),
    schemas (expand_all env regs st) = (schemas st ++ flat_map (text_of env) regs)%list.
Proof.
  intros S V env regs. induction regs as [| r rest IH]; cbn; intros st.
  - now rewrite app_nil_r.
  - now rewrite IH, expandGQL_schemas, <- app_assoc.
Qed.



(** X13. No registration removes a resolver: a key that [root_resolver]
    has keeps being there through any sequence of later registrations. *)
Theorem registered_keys_are_kept :
  forall S V (env : ApiEnv S) (regs : list (Registration V)) (st : ApiState S V) k,
    obj_get (heap st root_resolver) k <> None ->
    obj_get (heap (expand_all env regs st) root_resolver) k <> None.
Proof.
  intros S V env regs. induction regs as [| r rest IH]; cbn; intros st k Hk.
  - exact Hk.
  - apply IH. rewrite obj_get_None in *. intros Hn. apply Hk. intros Hin.
    apply Hn. now apply expandGQL_keeps_keys.
Qed.

Lemma registered_keys_are_kept_witness :
  obj_get (heap (expand_all disk
                   [{| reg_path := "addons/shop"; reg_file := "schema.gql";
                       reg_resolver := [("items", 2%nat); ("posts", 3%nat)] |};
                    {| reg_path := "addons/gone"; reg_file := "schema.gql";
                       reg_resolver := [("ghost", 9%nat)] |}]
                   (snd (expandGQL disk "addons/blog" "schema.gql"
                           [("posts", 1%nat); ("authors", 7%nat)]
                           (api_init (list string) nat))))
             root_resolver) "authors"
  <> None.
Proof.
  apply (@registered_keys_are_kept (list string) nat disk).
  cbn. discriminate.
Defined.

(** X14. [lockGraphSQL] after a sequence of registrations on the freshly
    loaded module: when the schema builder accepts the texts that were
    read, one middleware is mounted on [/graphql], with the schema built
    from exactly those texts in the order of the calls, with
    [root_resolver] itself as root value and GraphiQL on; [schemas] and
    the resolvers are left as they are. *)
Theorem lock_after_registrations :
  forall S V (env : ApiEnv S) (regs : list (Registration V)) built_schema,
    makeExecutableSchema env (flat_map (text_of env) regs) = Some built_schema ->
    lockGraphSQL env (expand_all env regs (api_init S V))
    = (None,
       {| schemas := schemas (expand_all env regs (api_init S V));
          heap := heap (expand_all env regs (api_init S V));
          app_stack := [{| route := "/graphql";
                           handler := {| schema := built_schema;
                                         rootValue := root_resolver;
                                         graphiql := true |} |}] |}).
Proof.
  intros S V env regs built_schema Hbuild.
  assert (Hschemas : forall (st : ApiState S V),
             schemas (expand_all env regs st)
             = (schemas st ++ flat_map (text_of env) regs)%list).
  { clear Hbuild. induction regs as [| r rest IH]; cbn; intros st.
    - now rewrite app_nil_r.
    - now rewrite IH, expandGQL_schemas, <- app_assoc. }
  unfold lockGraphSQL.
  rewrite Hschemas, expand_all_app_stack. cbn.
  now rewrite Hbuild.
Qed.

Lemma lock_after_registrations_witness :
  app_stack
    (snd (lockGraphSQL disk
            (expand_all disk
               [{| reg_path := "addons/blog"; reg_file := "schema.gql";
                   reg_resolver := [("posts", 1%nat)] |};
                {| reg_path := "addons/gone"; reg_file := "schema.gql";
                   reg_resolver := [("ghost", 9%nat)] |};
                {| reg_path := "addons/shop"; reg_file := "schema.gql";
                   reg_resolver := [("items", 2%nat)] |}]
               (api_init (list string) nat))))
  = [{| route := "/graphql";
        handler := {| schema := ["type Query { posts: [Post] }";
                                 "type Query { items: [Item] }"];
                      rootValue := root_resolver;
                      graphiql := true |} |}].
Proof.
  rewrite (@lock_after_registrations (list string) nat disk
             [{| reg_path := "addons/blog"; reg_file := "schema.gql";
                 reg_resolver := [("posts", 1%nat)] |};
              {| reg_path := "addons/gone"; reg_file := "schema.gql";
                 reg_resolver := [("ghost", 9%nat)] |};
              {| reg_path := "addons/shop"; reg_file := "schema.gql";
                 reg_resolver := [("items", 2%nat)] |}]
             ["type Query { posts: [Post] }"; "type Query { items: [Item] }"]).
  - reflexivity.
  - reflexivity.
Defined.



(** A registration whose file cannot be read throws and changes nothing. *)
Lemma expandGQL_unreadable :
  forall S V (env : ApiEnv S) (r : Registration V) (st : ApiState S V),
    readFileSync env (join env (reg_path r) (reg_file r)) = None ->
    expandGQL env (reg_path r) (reg_file r) (reg_resolver r) st
    = (Some (FsError (join env (reg_path r) (reg_file r))), st).
Proof.
  intros S V env r st Hread. unfold expandGQL. now rewrite Hread.
Qed.

(** X16. A registration whose file cannot be read throws before anything
    is changed, so in any sequence of registrations the failed ones count
    for nothing: the state is the one the readable registrations alone
    lead to, resolvers included. *)
Theorem unreadable_registrations_change_nothing :
  forall S V (env : ApiEnv S) (regs : list (Registration V)) (st : ApiState S V),
    expand_all env regs st
    = expand_all env
        (filter (fun r => match readFileSync env (join env (reg_path r) (reg_file r)) with
                          | Some _ => true
                          | None => false
                          end) regs)
        st.
Proof.
  intros S V env regs. induction regs as [| r rest IH]; cbn; intros st.
  - reflexivity.
  - destruct (readFileSync env (join env (reg_path r) (reg_file r))) eqn:Hread; cbn.
    + apply IH.
    + rewrite (expandGQL_unreadable env r st Hread). cbn. apply IH.
Qed.
